(** * SignalHandler: an RAII guard around one POSIX signal disposition

    Shallow embedding of [de::Koesling::Signal::SignalHandler]
    (SignalHandler.hpp / SignalHandler.cpp).  Member functions are
    computations in a small state-and-exception monad over the process
    state: the kernel's disposition table, [errno], the static member
    [error_stream], and the memory the guard objects live in. *)

From Stdlib Require Import ZArith List String Bool Lia.
From ExtLib Require Import Structures.Monad.
Import ListNotations MonadNotation.
Local Open Scope string_scope.
Local Open Scope Z_scope.
Local Open Scope monad_scope.

(** ** Platform constants

    Values of <csignal> and <sysexits.h> on Linux (x86-64, glibc). *)
Module Posix.
Definition SIGHUP : Z := 1.
Definition SIGKILL : Z := 9.
Definition SIGUSR1 : Z := 10.
Definition SIGSTOP : Z := 19.
Definition SIGRTMAX : Z := 64.
Definition SA_SIGINFO : Z := 4.
(** [SIG_DFL] is the null function pointer, [SIG_IGN] the address 1. *)
Definition SIG_DFL : Z := 0.
Definition SIG_IGN : Z := 1.
Definition EX_OSERR : Z := 71.
Definition EINVAL : Z := 22.
End Posix.
Import Posix.

(** ** Data model *)

(** [sigset_t]: the signal mask as a bit vector, bit [n-1] for signal [n];
    all bits clear is the empty set. *)
Definition sigset_t := N.

(** A function pointer is its address; [nullptr] is 0. *)
Definition funptr := Z.
Definition nullptr : funptr := 0.

(** [struct sigaction].  [sa_handler] and [sa_sigaction] are the two
    members of one union and share their storage: one field. *)
Record sigaction_t := mk_sigaction {
  sa_handler : funptr;
  sa_mask : sigset_t;
  sa_flags : Z;
  sa_restorer : funptr
}.

(** [memset(&a, 0, sizeof(a))] *)
Definition zeroed : sigaction_t :=
  {| sa_handler := 0; sa_mask := 0%N; sa_flags := 0; sa_restorer := 0 |}.

Definition with_sa_handler (h : funptr) (a : sigaction_t) : sigaction_t :=
  {| sa_handler := h; sa_mask := sa_mask a;
     sa_flags := sa_flags a; sa_restorer := sa_restorer a |}.
Definition with_sa_flags (f : Z) (a : sigaction_t) : sigaction_t :=
  {| sa_handler := sa_handler a; sa_mask := sa_mask a;
     sa_flags := f; sa_restorer := sa_restorer a |}.
Definition with_sa_mask (m : sigset_t) (a : sigaction_t) : sigaction_t :=
  {| sa_handler := sa_handler a; sa_mask := m;
     sa_flags := sa_flags a; sa_restorer := sa_restorer a |}.

(** The class's non-static data members. *)
Record SignalHandler := mk_SignalHandler {
  signal_number : Z;
  established : bool;
  curent_signal_action : sigaction_t;
  old_signal_action : sigaction_t
}.

(** Objects are identified by their address. *)
Definition addr := nat.

(** The exceptions the code throws.  [std::invalid_argument] derives from
    [std::logic_error]; [std::system_error] is what [sysexcept] raises. *)
Inductive exception :=
| invalid_argument (what : string)
| logic_error (what : string)
| system_error (operation : string) (code : Z).

(** [catch (const std::logic_error&)] matches both logic classes. *)
Definition is_logic_error (e : exception) : bool :=
  match e with
  | invalid_argument _ | logic_error _ => true
  | system_error _ _ => false
  end.

Definition is_invalid_argument (e : exception) : bool :=
  match e with
  | invalid_argument _ => true
  | _ => false
  end.

Definition is_system_error (e : exception) : bool :=
  match e with
  | system_error _ _ => true
  | _ => false
  end.

Inductive ostream := cerr | other_stream (id : nat).

(** The only output slot the code ever hands to the kernel is the
    [old_signal_action] member of some guard. *)
Inductive pointer := old_signal_action_of (this : addr).

(** One entry of the log of system calls issued: the signal, the
    disposition passed in (if any) and the output slot (if any). *)
Record syscall := Sigaction {
  sc_signum : Z;
  sc_act : option sigaction_t;
  sc_oldact : option pointer
}.

(** The process.  [faults] is the environment's script: the head says
    whether the next [sigaction] call fails and with which [errno]; an
    exhausted script means success. *)
Record process := mk_process {
  dispositions : Z -> sigaction_t;
  faults : list (option Z);
  errno : Z;
  syscalls : list syscall;
  error_stream : ostream;
  written : list (ostream * exception);
  heap : addr -> SignalHandler
}.

Definition with_dispositions (d : Z -> sigaction_t) (p : process) : process :=
  {| dispositions := d; faults := faults p; errno := errno p;
     syscalls := syscalls p; error_stream := error_stream p;
     written := written p; heap := heap p |}.
Definition with_faults (f : list (option Z)) (p : process) : process :=
  {| dispositions := dispositions p; faults := f; errno := errno p;
     syscalls := syscalls p; error_stream := error_stream p;
     written := written p; heap := heap p |}.
Definition with_errno (e : Z) (p : process) : process :=
  {| dispositions := dispositions p; faults := faults p; errno := e;
     syscalls := syscalls p; error_stream := error_stream p;
     written := written p; heap := heap p |}.
Definition with_syscalls (l : list syscall) (p : process) : process :=
  {| dispositions := dispositions p; faults := faults p; errno := errno p;
     syscalls := l; error_stream := error_stream p;
     written := written p; heap := heap p |}.
Definition with_error_stream (s : ostream) (p : process) : process :=
  {| dispositions := dispositions p; faults := faults p; errno := errno p;
     syscalls := syscalls p; error_stream := s;
     written := written p; heap := heap p |}.
Definition with_written (w : list (ostream * exception)) (p : process) : process :=
  {| dispositions := dispositions p; faults := faults p; errno := errno p;
     syscalls := syscalls p; error_stream := error_stream p;
     written := w; heap := heap p |}.
Definition with_heap (h : addr -> SignalHandler) (p : process) : process :=
  {| dispositions := dispositions p; faults := faults p; errno := errno p;
     syscalls := syscalls p; error_stream := error_stream p;
     written := written p; heap := h |}.

Definition update {A : Type} (f : Z -> A) (k : Z) (v : A) : Z -> A :=
  fun k' => if k' =? k then v else f k'.

Definition poke (h : addr -> SignalHandler) (a : addr) (g : SignalHandler)
  : addr -> SignalHandler :=
  fun a' => if Nat.eqb a' a then g else h a'.

(** ** The monad of member functions *)

(** A call returns, leaves by an exception, or ends the process. *)
Inductive outcome (A : Type) :=
| Normal (a : A)
| Thrown (e : exception)
| Exited (status : Z).
Arguments Normal {A} a.
Arguments Thrown {A} e.
Arguments Exited {A} status.

Definition M (A : Type) : Type := process -> outcome A * process.

(** State changes made before an exception stay made. *)
#[export] Instance Monad_M : Monad M := {
  ret := fun _ a p => (Normal a, p);
  bind := fun _ _ c k p =>
    match c p with
    | (Normal a, p') => k a p'
    | (Thrown e, p') => (Thrown e, p')
    | (Exited n, p') => (Exited n, p')
    end
}.

Definition throw {A : Type} (e : exception) : M A := fun p => (Thrown e, p).
Definition exit {A : Type} (status : Z) : M A := fun p => (Exited status, p).

Definition try_catch {A : Type} (c : M A) (handler : exception -> M A) : M A :=
  fun p =>
    match c p with
    | (Thrown e, p') => handler e p'
    | r => r
    end.

Definition gets {A : Type} (f : process -> A) : M A := fun p => (Normal (f p), p).
Definition modify (f : process -> process) : M unit := fun p => (Normal tt, f p).

(** [if (c) throw e;] *)
Definition throw_if (c : bool) (e : exception) : M unit :=
  if c then throw e else ret tt.

Definition result {A : Type} (r : outcome A * process) : outcome A := fst r.
Definition after {A : Type} (r : outcome A * process) : process := snd r.

Definition returns {A : Type} (r : outcome A * process) : bool :=
  match fst r with Normal _ => true | _ => false end.

(** *** Object memory *)

Definition load (this : addr) : M SignalHandler := gets (fun p => heap p this).

Definition store (this : addr) (g : SignalHandler) : M unit :=
  modify (fun p => with_heap (poke (heap p) this g) p).

Definition set_signal_number (this : addr) (n : Z) : M unit :=
  g <- load this ;;
  store this {| signal_number := n; established := established g;
                curent_signal_action := curent_signal_action g;
                old_signal_action := old_signal_action g |}.

Definition set_established (this : addr) (b : bool) : M unit :=
  g <- load this ;;
  store this {| signal_number := signal_number g; established := b;
                curent_signal_action := curent_signal_action g;
                old_signal_action := old_signal_action g |}.

Definition set_curent_signal_action (this : addr) (a : sigaction_t) : M unit :=
  g <- load this ;;
  store this {| signal_number := signal_number g; established := established g;
                curent_signal_action := a;
                old_signal_action := old_signal_action g |}.

Definition set_old_signal_action (this : addr) (a : sigaction_t) : M unit :=
  g <- load this ;;
  store this {| signal_number := signal_number g; established := established g;
                curent_signal_action := curent_signal_action g;
                old_signal_action := a |}.

(** Writing through an output pointer. *)
Definition write_through (ptr : pointer) (a : sigaction_t) : M unit :=
  match ptr with
  | old_signal_action_of this => set_old_signal_action this a
  end.

(** ** The collaborators *)

(** The kernel's [sigaction(signum, act, oldact)]: the call is logged; on
    failure it returns -1 with [errno] set and changes nothing else; on
    success it reports the active disposition through [oldact] (when
    given), installs [*act] (when given) and returns 0. *)
Definition sigaction (signum : Z) (act : option sigaction_t)
    (oldact : option pointer) : M Z :=
  modify (fun p => with_syscalls (syscalls p ++ [Sigaction signum act oldact]) p) ;;
  script <- gets faults ;;
  modify (with_faults (tl script)) ;;
  match script with
  | Some e :: _ =>
      modify (with_errno e) ;;
      ret (-1)
  | _ =>
      previous <- gets (fun p => dispositions p signum) ;;
      match oldact with
      | Some ptr => write_through ptr previous
      | None => ret tt
      end ;;
      match act with
      | Some a => modify (fun p => with_dispositions (update (dispositions p) signum a) p)
      | None => ret tt
      end ;;
      ret 0
  end.

(** Modelled from the spec: [sysexcept] of common_header/sysexcept.hpp is
    not among the sources.  Spec 4.2: a failing call "surfaces as a reported
    system-level failure condition carrying the failing operation name and
    the OS error code". *)
Definition sysexcept (failed : bool) (operation : string) (code : Z) : M unit :=
  throw_if failed (system_error operation code).

(** Modelled from the spec: [destructor_exception_terminate] of
    common_header/destructor_exception.hpp is not among the sources.
    Spec 4.5: "report the failure's description to a process-wide
    diagnostic sink ... and terminate the process immediately with a
    fixed exit status".  The description of [e] is logged as [e]. *)
Definition destructor_exception_terminate (e : exception) (stream : ostream)
    (status : Z) : M unit :=
  modify (fun p => with_written (written p ++ [(stream, e)]) p) ;;
  exit status.

(** ** The class *)

(** [std::ostream *SignalHandler::error_stream = &std::cerr;] and every
    other piece of state as it is when the program starts: all signals at
    their default disposition, no call made, nothing written. *)
Definition startup (raw : addr -> SignalHandler) : process :=
  {| dispositions := fun _ => zeroed; faults := []; errno := 0;
     syscalls := []; error_stream := cerr; written := []; heap := raw |}.

(** [set_error_stream(std::ostream &stream)] *)
Definition set_error_stream (stream : ostream) : M unit :=
  modify (with_error_stream stream).

(** [SignalHandler(int, SignalHandler_t, int sa_flags = 0,
    sigset_t *blocked_signals = nullptr)], building the object in the
    storage at [this]; [old_signal_action] is left as the storage had it. *)
Definition SignalHandler_ctor (this : addr) (signal_number : Z)
    (handler_function : funptr) (sa_flags : Z)
    (blocked_signals : option sigset_t) : M unit :=
  set_signal_number this signal_number ;;
  set_established this false ;;
  set_curent_signal_action this zeroed ;;
  throw_if (handler_function =? nullptr)
    (invalid_argument "Unable to establish a signal handler with no handler function.") ;;
  throw_if (negb (Z.land sa_flags SA_SIGINFO =? 0))
    (invalid_argument "Flag SA_SIGINFO, but handler function is of the wrong type.") ;;
  throw_if ((signal_number <? SIGHUP) || (signal_number >? SIGRTMAX))
    (invalid_argument "Invalid signal number (out of range).") ;;
  throw_if (signal_number =? SIGKILL)
    (invalid_argument "Action for signal SIGKILL can not be changed.") ;;
  throw_if (signal_number =? SIGSTOP)
    (invalid_argument "Action for signal SIGSTOP can not be changed.") ;;
  g <- load this ;;
  set_curent_signal_action this (with_sa_handler handler_function (curent_signal_action g)) ;;
  g <- load this ;;
  set_curent_signal_action this (with_sa_flags sa_flags (curent_signal_action g)) ;;
  match blocked_signals with
  | Some mask =>
      g <- load this ;;
      set_curent_signal_action this (with_sa_mask mask (curent_signal_action g))
  | None => ret tt
  end.

(** [SignalHandler(int, SignalHandler_extended_t, int sa_flags = 0,
    sigset_t *blocked_signals = nullptr)].  The third test compares with
    [SIGKILL] a second time, as the source does. *)
Definition SignalHandler_ctor_extended (this : addr) (signal_number : Z)
    (handler_function : funptr) (sa_flags : Z)
    (blocked_signals : option sigset_t) : M unit :=
  set_signal_number this signal_number ;;
  set_established this false ;;
  set_curent_signal_action this zeroed ;;
  let sa_flags := Z.lor sa_flags SA_SIGINFO in
  throw_if (handler_function =? nullptr)
    (invalid_argument "Unable to establish a signal handler with no handler function.") ;;
  throw_if ((signal_number <? SIGHUP) || (signal_number >? SIGRTMAX))
    (logic_error "Invalid signal number (out of range).") ;;
  throw_if (signal_number =? SIGKILL)
    (logic_error "Action for signal SIGKILL can not be changed.") ;;
  throw_if (signal_number =? SIGKILL)
    (logic_error "Action for signal SIGSTOP can not be changed.") ;;
  g <- load this ;;
  set_curent_signal_action this (with_sa_handler handler_function (curent_signal_action g)) ;;
  g <- load this ;;
  set_curent_signal_action this (with_sa_flags sa_flags (curent_signal_action g)) ;;
  match blocked_signals with
  | Some mask =>
      g <- load this ;;
      set_curent_signal_action this (with_sa_mask mask (curent_signal_action g))
  | None => ret tt
  end.

(** [SignalHandler(SignalHandler &&other) noexcept].  [std::move] of an
    [int], a [bool] or a [struct sigaction] copies: [other] keeps its
    members. *)
Definition SignalHandler_move (this other : addr) : M unit :=
  o <- load other ;;
  store this {| signal_number := signal_number o;
                established := established o;
                curent_signal_action := curent_signal_action o;
                old_signal_action := old_signal_action o |}.

(** [SignalHandler& operator=(SignalHandler &&other) noexcept] *)
Definition operator_assign (this other : addr) : M unit :=
  if negb (Nat.eqb this other) then
    o <- load other ;; set_signal_number this (signal_number o) ;;
    o <- load other ;; set_established this (established o) ;;
    o <- load other ;; set_curent_signal_action this (curent_signal_action o) ;;
    o <- load other ;; set_old_signal_action this (old_signal_action o)
  else ret tt.

(** [void establish()] *)
Definition establish (this : addr) : M unit :=
  self <- load this ;;
  temp <- (if negb (established self)
           then sigaction (signal_number self) (Some (curent_signal_action self))
                  (Some (old_signal_action_of this))
           else sigaction (signal_number self) (Some (curent_signal_action self))
                  None) ;;
  code <- gets errno ;;
  sysexcept (negb (temp =? 0)) "sigaction" code ;;
  set_established this true.

(** [void revoke()] *)
Definition revoke (this : addr) : M unit :=
  self <- load this ;;
  throw_if (negb (established self))
    (logic_error "revoking a signal handler that has not been established will result in undefined behavior.") ;;
  self <- load this ;;
  temp <- sigaction (signal_number self) (Some (old_signal_action self)) None ;;
  code <- gets errno ;;
  sysexcept (negb (temp =? 0)) "sigaction" code ;;
  set_established this false.

(** The local [ignore_action] of [ignore()]. *)
Definition ignore_action : sigaction_t := with_sa_handler SIG_IGN zeroed.

(** [void ignore()] *)
Definition ignore (this : addr) : M unit :=
  self <- load this ;;
  temp <- sigaction (signal_number self) (Some ignore_action) None ;;
  code <- gets errno ;;
  sysexcept (negb (temp =? 0)) "sigaction" code.

(** [~SignalHandler()] *)
Definition SignalHandler_dtor (this : addr) : M unit :=
  self <- load this ;;
  if established self then
    try_catch (revoke this)
      (fun e =>
         stream <- gets error_stream ;;
         destructor_exception_terminate e stream EX_OSERR)
  else ret tt.

(** ** Observations *)

(** The guard stored at [this]. *)
Definition guard (p : process) (this : addr) : SignalHandler := heap p this.

(** The disposition the kernel has active for a signal. *)
Definition active (p : process) (signum : Z) : sigaction_t := dispositions p signum.

(** The calls issued between two states of one run. *)
Definition calls_since (before now : process) : list syscall :=
  skipn (List.length (syscalls before)) (syscalls now).

(** ** Scenarios: calls made on one guard by a caller that catches what
    they throw, interleaved with other code changing a disposition. *)
Inductive call := Establish | Revoke | Ignore.

Definition invoke (c : call) (this : addr) : M unit :=
  match c with
  | Establish => establish this
  | Revoke => revoke this
  | Ignore => ignore this
  end.

Inductive event :=
| Call (c : call)
| Elsewhere (signum : Z) (a : sigaction_t).

Definition occur (this : addr) (ev : event) (p : process) : process :=
  match ev with
  | Call c => after (invoke c this p)
  | Elsewhere signum a => with_dispositions (update (dispositions p) signum a) p
  end.

Definition run (this : addr) (evs : list event) (p : process) : process :=
  fold_left (fun q ev => occur this ev q) evs p.

(** Some memory content, for the examples: a guard-sized block of junk. *)
Definition junk : SignalHandler :=
  {| signal_number := 77; established := true;
     curent_signal_action := mk_sigaction 13 5%N 9 3;
     old_signal_action := mk_sigaction 21 6%N 8 2 |}.

Definition fresh_process : process := startup (fun _ => junk).

(** ** Vocabulary of the statements *)

(** What a constructor must leave in [curent_signal_action]: the handler,
    the flags, the caller's mask or the empty one, nothing else. *)
Definition populated (h : funptr) (flags : Z) (mask : option sigset_t)
  : sigaction_t :=
  {| sa_handler := h;
     sa_mask := match mask with Some m => m | None => 0%N end;
     sa_flags := flags;
     sa_restorer := 0 |}.

(** The guard at [this] with its bookkeeping members replaced. *)
Definition rebooked (this : addr) (b : bool) (cur old : sigaction_t)
    (p : process) : process :=
  with_heap (poke (heap p) this
               {| signal_number := signal_number (guard p this);
                  established := b;
                  curent_signal_action := cur;
                  old_signal_action := old |}) p.

(** The one call that can capture a disposition. *)
Definition arms (c : call) : bool :=
  match c with
  | Establish => true
  | _ => false
  end.

(** Events under which an established guard stays established. *)
Definition keeps_armed (ev : event) : bool :=
  match ev with
  | Call Revoke => false
  | _ => true
  end.

(** Events of a guard that has its signal to itself: only its own
    [establish] and [revoke] calls. *)
Definition own_cycle (ev : event) : bool :=
  match ev with
  | Call Establish | Call Revoke => true
  | _ => false
  end.

(** Whether the environment lets the next [sigaction] call succeed. *)
Definition next_call_succeeds (p : process) : bool :=
  match faults p with
  | Some _ :: _ => false
  | _ => true
  end.

(** * Verification *)

(** ** Memory and log *)

Lemma poke_same (h : addr -> SignalHandler) (a : addr) (g : SignalHandler) :
  poke h a g a = g.
Proof. unfold poke. now rewrite Nat.eqb_refl. Qed.

Lemma poke_other (h : addr -> SignalHandler) (a b : addr) (g : SignalHandler) :
  b <> a -> poke h a g b = h b.
Proof.
  intros Hne. unfold poke.
  destruct (Nat.eqb_spec b a) as [Heq | _]; [contradiction | reflexivity].
Qed.

Lemma update_same {A : Type} (f : Z -> A) (k : Z) (v : A) : update f k v k = v.
Proof. unfold update. now rewrite Z.eqb_refl. Qed.

Lemma skipn_length_app {A : Type} (l extra : list A) :
  skipn (List.length l) (l ++ extra) = extra.
Proof. induction l as [| x l IH]; [reflexivity | exact IH]. Qed.

Lemma guard_eta (g : SignalHandler) :
  {| signal_number := signal_number g; established := established g;
     curent_signal_action := curent_signal_action g;
     old_signal_action := old_signal_action g |} = g.
Proof. now destruct g. Qed.

(** Unfold the member functions down to the state they compute. *)
Ltac members :=
  unfold invoke, SignalHandler_dtor, establish, revoke, ignore, sigaction,
    destructor_exception_terminate, sysexcept, throw_if, try_catch,
    calls_since, after, result, returns, guard, active.

Ltac tidy :=
  cbn; rewrite ?poke_same, ?update_same, ?skipn_length_app; cbn.

(** Case analysis on the next scripted fault. *)
Ltac on_fault p :=
  let e := fresh "e" in
  let rest := fresh "rest" in
  destruct (faults p) as [| [e |] rest]; tidy.

(** ** Construction *)

Ltac ctor_cases :=
  unfold SignalHandler_ctor, SignalHandler_ctor_extended, throw_if,
    after, result, returns, guard, active; cbn;
  repeat match goal with
    | |- context [if ?b then _ else _] => destruct b eqn:?; cbn
    | |- context [match ?o with Some _ => _ | None => _ end] => destruct o; cbn
    end;
  rewrite ?poke_same; cbn; rewrite ?poke_same; cbn.

(** Turn the recorded outcomes of the constructors' tests into facts. *)
Ltac test_facts :=
  repeat match goal with
    | H : negb _ = true |- _ => apply negb_true_iff in H
    | H : negb _ = false |- _ => apply negb_false_iff in H
    | H : (_ || _) = true |- _ => apply orb_true_iff in H
    | H : (_ || _) = false |- _ => apply orb_false_iff in H; destruct H
    | H : (_ =? _) = true |- _ => apply Z.eqb_eq in H
    | H : (_ =? _) = false |- _ => apply Z.eqb_neq in H
    | H : (_ <? _) = true |- _ => apply Z.ltb_lt in H
    | H : (_ <? _) = false |- _ => apply Z.ltb_ge in H
    | H : (_ >? _) = true |- _ => rewrite Z.gtb_ltb in H
    | H : (_ >? _) = false |- _ => rewrite Z.gtb_ltb in H
    end;
  unfold nullptr, SIGHUP, SIGRTMAX, SIGKILL, SIGSTOP in *.

Example zeroed_is_the_default_disposition :
  sa_handler zeroed = SIG_DFL /\ sa_handler ignore_action = SIG_IGN.
Proof. split; reflexivity. Qed.

Example ctor_accepts_user_signal :
  let r := SignalHandler_ctor 0%nat SIGUSR1 4096 0 None fresh_process in
  result r = Normal tt
  /\ guard (after r) 0%nat =
     {| signal_number := SIGUSR1; established := false;
        curent_signal_action := populated 4096 0 None;
        old_signal_action := old_signal_action junk |}.
Proof. vm_compute. split; reflexivity. Qed.

Example ctor_extended_accepts_user_signal :
  let r := SignalHandler_ctor_extended 0%nat SIGUSR1 4096 0 (Some 5%N) fresh_process in
  result r = Normal tt
  /\ guard (after r) 0%nat =
     {| signal_number := SIGUSR1; established := false;
        curent_signal_action := populated 4096 SA_SIGINFO (Some 5%N);
        old_signal_action := old_signal_action junk |}.
Proof. vm_compute. split; reflexivity. Qed.

(** C7. Neither constructor touches the kernel: the disposition table and
    the log of system calls are as before, whether construction succeeds
    or fails.  On success the guard is not established and its pending
    disposition is fully populated; failure is by a logic error, never by
    ending the process.  A null handler is refused with
    [std::invalid_argument] for every signal number, flags and mask. *)
Theorem construction_touches_no_os_state
    (this : addr) (signum : Z) (h : funptr) (flags : Z)
    (mask : option sigset_t) (p : process) :
  let simple := SignalHandler_ctor this signum h flags mask p in
  let extended := SignalHandler_ctor_extended this signum h flags mask p in
  (dispositions (after simple) = dispositions p
   /\ syscalls (after simple) = syscalls p)
  /\ (dispositions (after extended) = dispositions p
      /\ syscalls (after extended) = syscalls p)
  /\ match result simple with
     | Normal _ =>
         established (guard (after simple) this) = false
         /\ signal_number (guard (after simple) this) = signum
         /\ curent_signal_action (guard (after simple) this)
            = populated h flags mask
     | Thrown e => is_logic_error e = true
     | Exited _ => False
     end
  /\ match result extended with
     | Normal _ =>
         established (guard (after extended) this) = false
         /\ signal_number (guard (after extended) this) = signum
         /\ curent_signal_action (guard (after extended) this)
            = populated h (Z.lor flags SA_SIGINFO) mask
     | Thrown e => is_logic_error e = true
     | Exited _ => False
     end
  /\ result (SignalHandler_ctor this signum nullptr flags mask p)
     = Thrown (invalid_argument
         "Unable to establish a signal handler with no handler function.")
  /\ result (SignalHandler_ctor_extended this signum nullptr flags mask p)
     = Thrown (invalid_argument
         "Unable to establish a signal handler with no handler function.").
Proof.
  cbv zeta. repeat split.
  all: ctor_cases; auto.
Qed.

(** The simple form refuses both protected signals, whatever the handler,
    the flags and the mask, always with [std::invalid_argument]. *)
Lemma ctor_refuses_protected_signals
    (this : addr) (signum : Z) (h : funptr) (flags : Z)
    (mask : option sigset_t) (p : process) :
  signum = SIGKILL \/ signum = SIGSTOP ->
  exists what,
    result (SignalHandler_ctor this signum h flags mask p)
    = Thrown (invalid_argument what).
Proof.
  intros [-> | ->]; ctor_cases; eauto; discriminate.
Qed.

(** The extended form refuses [SIGKILL]: with [std::invalid_argument] for
    a null handler, with [std::logic_error] otherwise. *)
Lemma ctor_extended_refuses_SIGKILL
    (this : addr) (h : funptr) (flags : Z)
    (mask : option sigset_t) (p : process) :
  exists e,
    result (SignalHandler_ctor_extended this SIGKILL h flags mask p) = Thrown e
    /\ is_logic_error e = true
    /\ is_invalid_argument e = (h =? nullptr).
Proof.
  ctor_cases; eauto; discriminate.
Qed.

(** C3. The extended form does not refuse [SIGSTOP]: its second test of
    the protected signals compares with [SIGKILL] again, so with any
    non-null handler construction succeeds and yields a guard for
    [SIGSTOP]. *)
Theorem ctor_extended_accepts_SIGSTOP
    (this : addr) (h : funptr) (flags : Z)
    (mask : option sigset_t) (p : process) :
  h <> nullptr ->
  let r := SignalHandler_ctor_extended this SIGSTOP h flags mask p in
  result r = Normal tt
  /\ signal_number (guard (after r) this) = SIGSTOP
  /\ curent_signal_action (guard (after r) this)
     = populated h (Z.lor flags SA_SIGINFO) mask.
Proof.
  intros Hh. cbv zeta.
  assert (Hnull : (h =? nullptr) = false) by now apply Z.eqb_neq.
  unfold SignalHandler_ctor_extended, throw_if, after, result, guard. cbn.
  rewrite Hnull. cbn.
  destruct mask; cbn; rewrite ?poke_same; cbn; rewrite ?poke_same; auto.
Qed.

Lemma ctor_extended_accepts_SIGSTOP_witness :
  4096 <> nullptr
  /\ result (SignalHandler_ctor_extended 0%nat SIGSTOP 4096 0 None fresh_process)
     = Normal tt.
Proof.
  split; [unfold nullptr; lia |].
  apply (ctor_extended_accepts_SIGSTOP 0%nat 4096 0 None fresh_process).
  unfold nullptr; lia.
Defined.

(** Both constructors return on arguments that pass their tests, and
    then hold exactly what they were given. *)
Lemma ctor_returns_on_valid
    (this : addr) (signum : Z) (h : funptr) (flags : Z)
    (mask : option sigset_t) (p : process) :
  h <> nullptr ->
  Z.land flags SA_SIGINFO = 0 ->
  SIGHUP <= signum <= SIGRTMAX ->
  signum <> SIGKILL ->
  signum <> SIGSTOP ->
  let r := SignalHandler_ctor this signum h flags mask p in
  result r = Normal tt
  /\ curent_signal_action (guard (after r) this) = populated h flags mask.
Proof.
  intros Hh Hflags Hrange Hkill Hstop.
  ctor_cases; test_facts; try contradiction; try lia; auto.
Qed.

Lemma ctor_extended_returns_on_valid
    (this : addr) (signum : Z) (h : funptr) (flags : Z)
    (mask : option sigset_t) (p : process) :
  h <> nullptr ->
  SIGHUP <= signum <= SIGRTMAX ->
  signum <> SIGKILL ->
  let r := SignalHandler_ctor_extended this signum h flags mask p in
  result r = Normal tt
  /\ curent_signal_action (guard (after r) this)
     = populated h (Z.lor flags SA_SIGINFO) mask.
Proof.
  intros Hh Hrange Hkill.
  ctor_cases; test_facts; try contradiction; try lia; auto.
Qed.

(** ** Flags and masks *)

Lemma land_lor_same (a b : Z) : Z.land (Z.lor a b) b = b.
Proof.
  rewrite Z.land_lor_distr_l, Z.land_diag.
  apply Z.bits_inj'. intros n _.
  rewrite Z.lor_spec, Z.land_spec.
  destruct (Z.testbit a n), (Z.testbit b n); reflexivity.
Qed.

(** C9. The extended form sets [SA_SIGINFO] in the pending flags whatever
    flags the caller passed: for a non-null handler and a signal number a
    guard may have, construction returns with the pending flags equal to
    the caller's flags with [SA_SIGINFO] added, and no construction that
    returns leaves the flag clear.  The simple form refuses with
    [std::invalid_argument] every flags argument in which [SA_SIGINFO] is
    set, and takes the same arguments, storing the flags as given, once
    the flag is clear. *)
Theorem handler_shape_fixes_SA_SIGINFO
    (this : addr) (signum : Z) (h : funptr) (flags : Z)
    (mask : option sigset_t) (p : process) :
  let extended := SignalHandler_ctor_extended this signum h flags mask p in
  let simple := SignalHandler_ctor this signum h flags mask p in
  (h <> nullptr -> SIGHUP <= signum <= SIGRTMAX ->
   signum <> SIGKILL -> signum <> SIGSTOP ->
   result extended = Normal tt
   /\ sa_flags (curent_signal_action (guard (after extended) this))
      = Z.lor flags SA_SIGINFO
   /\ Z.land (sa_flags (curent_signal_action (guard (after extended) this)))
        SA_SIGINFO = SA_SIGINFO)
  /\ match result extended with
     | Normal _ =>
         Z.land (sa_flags (curent_signal_action (guard (after extended) this)))
           SA_SIGINFO = SA_SIGINFO
     | _ => True
     end
  /\ (Z.land flags SA_SIGINFO = SA_SIGINFO ->
      exists what, result simple = Thrown (invalid_argument what))
  /\ (h <> nullptr -> SIGHUP <= signum <= SIGRTMAX ->
      signum <> SIGKILL -> signum <> SIGSTOP ->
      Z.land flags SA_SIGINFO = 0 ->
      result simple = Normal tt
      /\ sa_flags (curent_signal_action (guard (after simple) this)) = flags).
Proof.
  cbv zeta. split; [| split; [| split]].
  - intros Hh Hrange Hkill _.
    destruct (ctor_extended_returns_on_valid this signum h flags mask p
                Hh Hrange Hkill) as (Hres & Hcur).
    rewrite Hcur. cbn. auto using land_lor_same.
  - ctor_cases; auto using land_lor_same.
  - intros Hset.
    unfold SignalHandler_ctor, throw_if, result. cbn.
    rewrite Hset. cbn.
    destruct (h =? nullptr); cbn; eauto.
  - intros Hh Hrange Hkill Hstop Hclear.
    destruct (ctor_returns_on_valid this signum h flags mask p
                Hh Hclear Hrange Hkill Hstop) as (Hres & Hcur).
    rewrite Hcur. auto.
Qed.

Lemma handler_shape_fixes_SA_SIGINFO_witness :
  (4096 <> nullptr /\ SIGHUP <= SIGUSR1 <= SIGRTMAX
   /\ SIGUSR1 <> SIGKILL /\ SIGUSR1 <> SIGSTOP
   /\ Z.land 5 SA_SIGINFO = SA_SIGINFO)
  /\ (result (SignalHandler_ctor_extended 0%nat SIGUSR1 4096 1 None fresh_process)
      = Normal tt
      /\ sa_flags (curent_signal_action
           (guard (after (SignalHandler_ctor_extended 0%nat SIGUSR1 4096 1 None
                            fresh_process)) 0%nat))
         = Z.lor 1 SA_SIGINFO
      /\ Z.land (sa_flags (curent_signal_action
           (guard (after (SignalHandler_ctor_extended 0%nat SIGUSR1 4096 1 None
                            fresh_process)) 0%nat)))
           SA_SIGINFO = SA_SIGINFO)
  /\ exists what,
       result (SignalHandler_ctor 0%nat SIGUSR1 4096 5 None fresh_process)
       = Thrown (invalid_argument what).
Proof.
  assert (Hh : 4096 <> nullptr) by (unfold nullptr; lia).
  assert (Hrange : SIGHUP <= SIGUSR1 <= SIGRTMAX)
    by (unfold SIGHUP, SIGUSR1, SIGRTMAX; lia).
  assert (Hkill : SIGUSR1 <> SIGKILL) by (unfold SIGUSR1, SIGKILL; lia).
  assert (Hstop : SIGUSR1 <> SIGSTOP) by (unfold SIGUSR1, SIGSTOP; lia).
  assert (Hset : Z.land 5 SA_SIGINFO = SA_SIGINFO) by reflexivity.
  split; [repeat split; assumption || apply Hrange |].
  split.
  - exact (proj1 (handler_shape_fixes_SA_SIGINFO 0%nat SIGUSR1 4096 1 None
                    fresh_process) Hh Hrange Hkill Hstop).
  - exact (proj1 (proj2 (proj2 (handler_shape_fixes_SA_SIGINFO 0%nat SIGUSR1 4096 5
                                  None fresh_process))) Hset).
Defined.

Example extended_form_forces_the_flag :
  let r := SignalHandler_ctor_extended 0%nat SIGUSR1 4096 0 None fresh_process in
  result r = Normal tt
  /\ sa_flags (curent_signal_action (guard (after r) 0%nat)) = SA_SIGINFO.
Proof. vm_compute. split; reflexivity. Qed.

Example default_guard_installs_bare_handler :
  let r := (SignalHandler_ctor 0%nat SIGUSR1 4096 0 None ;; establish 0%nat)
             fresh_process in
  result r = Normal tt
  /\ active (after r) SIGUSR1 = mk_sigaction 4096 0%N 0 0.
Proof. vm_compute. split; reflexivity. Qed.

(** C10. With no mask given, the disposition either constructor prepares
    has the empty mask and nothing set besides the handler and the flags:
    so it is whenever construction returns, and construction does return
    for a non-null handler, a signal number a guard may have and (simple
    form) flags without [SA_SIGINFO].  A simple-form guard built with the
    default arguments, once [establish] has succeeded, has installed a
    disposition with flags 0 and an empty mask. *)
Theorem default_mask_is_empty
    (this : addr) (signum : Z) (h : funptr) (flags : Z) (p : process) :
  let simple := SignalHandler_ctor this signum h flags None p in
  let extended := SignalHandler_ctor_extended this signum h flags None p in
  let armed := (SignalHandler_ctor this signum h 0 None ;; establish this) p in
  (match result simple with
   | Normal _ =>
       curent_signal_action (guard (after simple) this)
       = {| sa_handler := h; sa_mask := 0%N; sa_flags := flags; sa_restorer := 0 |}
   | _ => True
   end
   /\ match result extended with
      | Normal _ =>
          curent_signal_action (guard (after extended) this)
          = {| sa_handler := h; sa_mask := 0%N;
               sa_flags := Z.lor flags SA_SIGINFO; sa_restorer := 0 |}
      | _ => True
      end
   /\ match result armed with
      | Normal _ =>
          active (after armed) signum
          = {| sa_handler := h; sa_mask := 0%N; sa_flags := 0; sa_restorer := 0 |}
      | _ => True
      end)
  /\ (h <> nullptr -> SIGHUP <= signum <= SIGRTMAX ->
      signum <> SIGKILL -> signum <> SIGSTOP ->
      (Z.land flags SA_SIGINFO = 0 ->
       result simple = Normal tt
       /\ curent_signal_action (guard (after simple) this)
          = {| sa_handler := h; sa_mask := 0%N; sa_flags := flags;
               sa_restorer := 0 |})
      /\ (result extended = Normal tt
          /\ curent_signal_action (guard (after extended) this)
             = {| sa_handler := h; sa_mask := 0%N;
                  sa_flags := Z.lor flags SA_SIGINFO; sa_restorer := 0 |})
      /\ (next_call_succeeds p = true ->
          result armed = Normal tt
          /\ active (after armed) signum
             = {| sa_handler := h; sa_mask := 0%N; sa_flags := 0;
                  sa_restorer := 0 |})).
Proof.
  cbv zeta. split; [repeat split |].
  - ctor_cases; auto.
  - ctor_cases; auto.
  - unfold SignalHandler_ctor, throw_if. members. cbn.
    repeat match goal with
      | |- context [if ?b then _ else _] => destruct b eqn:?; cbn
      end; auto.
    all: rewrite ?poke_same; cbn; rewrite ?poke_same; cbn.
    all: on_fault p; auto.
  - intros Hh Hrange Hkill Hstop. split; [| split].
    + intros Hclear.
      exact (ctor_returns_on_valid this signum h flags None p
               Hh Hclear Hrange Hkill Hstop).
    + exact (ctor_extended_returns_on_valid this signum h flags None p
               Hh Hrange Hkill).
    + unfold next_call_succeeds, SignalHandler_ctor, throw_if. members. cbn.
      repeat match goal with
        | |- context [if ?b then _ else _] => destruct b eqn:?; cbn
        end; test_facts; try contradiction; try lia.
      all: rewrite ?poke_same; cbn; rewrite ?poke_same; cbn.
      all: on_fault p; intros Hnext; try discriminate; auto.
Qed.

Lemma default_mask_is_empty_witness :
  let simple := SignalHandler_ctor 0%nat SIGUSR1 4096 0 None fresh_process in
  let extended :=
    SignalHandler_ctor_extended 0%nat SIGUSR1 4096 0 None fresh_process in
  let armed := (SignalHandler_ctor 0%nat SIGUSR1 4096 0 None ;; establish 0%nat)
                 fresh_process in
  (4096 <> nullptr /\ SIGHUP <= SIGUSR1 <= SIGRTMAX
   /\ SIGUSR1 <> SIGKILL /\ SIGUSR1 <> SIGSTOP
   /\ Z.land 0 SA_SIGINFO = 0 /\ next_call_succeeds fresh_process = true)
  /\ (result simple = Normal tt
      /\ curent_signal_action (guard (after simple) 0%nat)
         = {| sa_handler := 4096; sa_mask := 0%N; sa_flags := 0;
              sa_restorer := 0 |})
  /\ (result extended = Normal tt
      /\ curent_signal_action (guard (after extended) 0%nat)
         = {| sa_handler := 4096; sa_mask := 0%N;
              sa_flags := Z.lor 0 SA_SIGINFO; sa_restorer := 0 |})
  /\ (result armed = Normal tt
      /\ active (after armed) SIGUSR1
         = {| sa_handler := 4096; sa_mask := 0%N; sa_flags := 0;
              sa_restorer := 0 |}).
Proof.
  cbv zeta.
  assert (Hh : 4096 <> nullptr) by (unfold nullptr; lia).
  assert (Hrange : SIGHUP <= SIGUSR1 <= SIGRTMAX)
    by (unfold SIGHUP, SIGUSR1, SIGRTMAX; lia).
  assert (Hkill : SIGUSR1 <> SIGKILL) by (unfold SIGUSR1, SIGKILL; lia).
  assert (Hstop : SIGUSR1 <> SIGSTOP) by (unfold SIGUSR1, SIGSTOP; lia).
  assert (Hclear : Z.land 0 SA_SIGINFO = 0) by reflexivity.
  assert (Hnext : next_call_succeeds fresh_process = true) by reflexivity.
  pose proof (proj2 (default_mask_is_empty 0%nat SIGUSR1 4096 0 fresh_process)
                Hh Hrange Hkill Hstop) as (Hsimple & Hextended & Harmed).
  split; [repeat split; assumption || apply Hrange |].
  split; [exact (Hsimple Hclear) |].
  split; [exact Hextended | exact (Harmed Hnext)].
Defined.

(** ** establish, revoke, ignore *)

(** What a successful [establish] leaves behind. *)
Lemma establish_returns (this : addr) (p : process) :
  returns (establish this p) = true ->
  let p' := after (establish this p) in
  active p' (signal_number (guard p this)) = curent_signal_action (guard p this)
  /\ established (guard p' this) = true
  /\ signal_number (guard p' this) = signal_number (guard p this)
  /\ curent_signal_action (guard p' this) = curent_signal_action (guard p this)
  /\ old_signal_action (guard p' this)
     = if established (guard p this)
       then old_signal_action (guard p this)
       else active p (signal_number (guard p this)).
Proof.
  members. cbn.
  destruct (established (heap p this)) eqn:Hest; cbn; on_fault p;
    intros Hret; try discriminate; auto.
Qed.

(** What a successful [revoke] leaves behind. *)
Lemma revoke_returns (this : addr) (p : process) :
  returns (revoke this p) = true ->
  let p' := after (revoke this p) in
  established (guard p this) = true
  /\ active p' (signal_number (guard p this)) = old_signal_action (guard p this)
  /\ established (guard p' this) = false
  /\ old_signal_action (guard p' this) = old_signal_action (guard p this).
Proof.
  members. cbn.
  destruct (established (heap p this)) eqn:Hest; cbn; [on_fault p |];
    intros Hret; try discriminate; auto.
Qed.

(** C6. On a guard that is not established, [revoke] throws
    [std::logic_error] - not a system error - and leaves the whole process
    as it was: no system call is logged, no disposition changes, and the
    guard stays not established. *)
Theorem revoke_requires_established (this : addr) (p : process) :
  established (guard p this) = false ->
  let r := revoke this p in
  result r = Thrown (logic_error
    "revoking a signal handler that has not been established will result in undefined behavior.")
  /\ after r = p
  /\ syscalls (after r) = syscalls p
  /\ dispositions (after r) = dispositions p
  /\ established (guard (after r) this) = false.
Proof.
  members. intros Hest. cbn. rewrite Hest. cbn. auto.
Qed.

Lemma revoke_requires_established_witness :
  let p := after (SignalHandler_ctor 0%nat SIGUSR1 4096 0 None fresh_process) in
  established (guard p 0%nat) = false
  /\ result (revoke 0%nat p) = Thrown (logic_error
       "revoking a signal handler that has not been established will result in undefined behavior.")
  /\ syscalls (after (revoke 0%nat p)) = [].
Proof.
  cbv zeta. split; [reflexivity |].
  destruct (revoke_requires_established 0%nat
              (after (SignalHandler_ctor 0%nat SIGUSR1 4096 0 None fresh_process))
              eq_refl) as (Hres & _ & Hcalls & _).
  split; [exact Hres | exact Hcalls].
Defined.

(** C8. [ignore] issues one [sigaction] call, passing the discard
    disposition for the guard's signal and no output slot; when the call
    succeeds that disposition is the active one.  No guard object is
    written, so [established], the pending and the prior disposition are
    as before, and nothing of them is read: with other values in their
    place the call, its result and the dispositions come out the same. *)
Theorem ignore_is_orthogonal (this : addr) (p : process) :
  let r := ignore this p in
  let signum := signal_number (guard p this) in
  heap (after r) = heap p
  /\ guard (after r) this = guard p this
  /\ calls_since p (after r) = [Sigaction signum (Some ignore_action) None]
  /\ sa_handler ignore_action = SIG_IGN
  /\ match faults p with
     | Some e :: _ =>
         result r = Thrown (system_error "sigaction" e)
         /\ dispositions (after r) = dispositions p
     | _ =>
         result r = Normal tt
         /\ active (after r) signum = ignore_action
     end
  /\ forall b cur old,
       let r' := ignore this (rebooked this b cur old p) in
       result r' = result r
       /\ dispositions (after r') = dispositions (after r)
       /\ calls_since (rebooked this b cur old p) (after r') = calls_since p (after r)
       /\ guard (after r') this = guard (rebooked this b cur old p) this.
Proof.
  cbv zeta. unfold rebooked. members. cbn.
  on_fault p; repeat split; intros; tidy; auto.
Qed.

Example ignore_before_establish :
  let p := after (SignalHandler_ctor 0%nat SIGUSR1 4096 0 None fresh_process) in
  let r := ignore 0%nat p in
  result r = Normal tt
  /\ sa_handler (active (after r) SIGUSR1) = SIG_IGN
  /\ established (guard (after r) 0%nat) = false.
Proof. vm_compute. repeat split; reflexivity. Qed.

(** ** The captured disposition *)

(** What one call does to [old_signal_action].  It changes in exactly
    one situation: an [establish] issued while the guard is not
    established, and succeeding, stores the disposition that was active at
    that moment.  An [establish] on an established guard, a failing
    [establish], [revoke] and [ignore] leave it alone.  Since [revoke]
    clears [established], the [establish] that follows a [revoke] captures
    afresh. *)
Theorem prior_captured_on_arming (c : call) (this : addr) (p : process) :
  let p' := after (invoke c this p) in
  old_signal_action (guard p' this) =
    if arms c && negb (established (guard p this)) && established (guard p' this)
    then active p (signal_number (guard p this))
    else old_signal_action (guard p this).
Proof.
  cbv zeta. destruct c; members; cbn;
    destruct (established (heap p this)) eqn:Hest; cbn;
    on_fault p; rewrite ?Hest; auto.
Qed.

(** C1. The code overwrites the captured disposition: on one object,
    after the first [establish] has captured the default disposition,
    [revoke(); ignore(); establish();] hands the kernel the
    [old_signal_action] slot once more and replaces its content with the
    discard disposition - against the header, which documents [revoke]
    as bringing back the handler "specified before calling establish()
    the first time". *)
Lemma prior_recaptured_after_revoke :
  let A := 0%nat in
  let p0 := after (SignalHandler_ctor A SIGUSR1 4096 0 None fresh_process) in
  let p1 := after (establish A p0) in
  let again := (revoke A ;; ignore A ;; establish A) p1 in
  established (guard p0 A) = false
  /\ result (establish A p0) = Normal tt
  /\ established (guard p1 A) = true
  /\ old_signal_action (guard p1 A) = zeroed
  /\ result again = Normal tt
  /\ calls_since p1 (after again)
     = [Sigaction SIGUSR1 (Some zeroed) None;
        Sigaction SIGUSR1 (Some ignore_action) None;
        Sigaction SIGUSR1 (Some (populated 4096 0 None))
          (Some (old_signal_action_of A))]
  /\ old_signal_action (guard (after again) A) = ignore_action
  /\ old_signal_action (guard (after again) A) <> old_signal_action (guard p1 A).
Proof.
  vm_compute. repeat split; try reflexivity. discriminate.
Qed.

Lemma armed_guard_survives (this : addr) (ev : event) (p : process) :
  keeps_armed ev = true ->
  established (guard p this) = true ->
  guard (occur this ev p) this = guard p this.
Proof.
  destruct ev as [[| |] | signum a]; cbn; intros Hev Hest;
    try discriminate; unfold guard in Hest; members; cbn.
  - rewrite Hest. cbn.
    on_fault p; auto; rewrite <- Hest; apply guard_eta.
  - on_fault p; auto.
  - reflexivity.
Qed.

Lemma armed_guard_is_stable (this : addr) (evs : list event) :
  forall p : process,
    forallb keeps_armed evs = true ->
    established (guard p this) = true ->
    guard (run this evs p) this = guard p this.
Proof.
  induction evs as [| ev evs IH]; intros p Hevs Hest; [reflexivity |].
  cbn in Hevs. apply andb_prop in Hevs. destruct Hevs as [Hev Hevs].
  unfold run in *. cbn.
  pose proof (armed_guard_survives this ev p Hev Hest) as Hstep.
  rewrite IH; [exact Hstep | exact Hevs | now rewrite Hstep].
Qed.

(** C4. The code restores a later disposition, not the one from before
    the object's first [establish].  When guard A is established a second
    time after a second guard B has installed its handler for the same
    signal, the matching [revoke] of A brings back B's disposition; and
    on a single guard, [establish(); revoke(); ignore(); establish();
    revoke();] ends with the discard disposition active.  In both runs
    the default disposition was active before the first [establish]. *)
Lemma second_cycle_restores_later_disposition :
  let A := 0%nat in
  let B := 1%nat in
  let p0 := after ((SignalHandler_ctor A SIGUSR1 4096 0 None ;;
                    SignalHandler_ctor B SIGUSR1 8192 0 None) fresh_process) in
  let first := (establish A ;; revoke A) p0 in
  let second := (establish B ;; establish A ;; revoke A) (after first) in
  let alone := (ignore A ;; establish A ;; revoke A) (after first) in
  result first = Normal tt
  /\ result second = Normal tt
  /\ active p0 SIGUSR1 = zeroed
  /\ active (after first) SIGUSR1 = zeroed
  /\ active (after second) SIGUSR1 = populated 8192 0 None
  /\ active (after second) SIGUSR1 <> active p0 SIGUSR1
  /\ result alone = Normal tt
  /\ active (after alone) SIGUSR1 = ignore_action
  /\ active (after alone) SIGUSR1 <> active p0 SIGUSR1.
Proof.
  vm_compute. repeat split; try reflexivity; discriminate.
Qed.

(** The round trip of one arming.  Every successful [establish] makes the
    pending disposition the active one.  When it is issued on a guard that
    is not established, what was active just before it is captured; further
    [establish] and [ignore] calls and changes made elsewhere do not touch
    the captured value; and the next successful [revoke] makes exactly it
    active again and clears [established]. *)
Theorem establish_revoke_round_trip
    (this : addr) (p : process) (evs : list event) :
  established (guard p this) = false ->
  returns (establish this p) = true ->
  forallb keeps_armed evs = true ->
  returns (revoke this (run this evs (after (establish this p)))) = true ->
  let signum := signal_number (guard p this) in
  let p1 := after (establish this p) in
  let p2 := run this evs p1 in
  let p3 := after (revoke this p2) in
  active p1 signum = curent_signal_action (guard p this)
  /\ old_signal_action (guard p1 this) = active p signum
  /\ old_signal_action (guard p2 this) = old_signal_action (guard p1 this)
  /\ active p3 signum = active p signum
  /\ established (guard p3 this) = false
  /\ forall q : process,
       returns (establish this q) = true ->
       active (after (establish this q)) (signal_number (guard q this))
       = curent_signal_action (guard q this).
Proof.
  intros Hfresh Harm Hevs Hrev. cbv zeta.
  destruct (establish_returns this p Harm) as (Hact & Hest & Hsig & _ & Hold).
  rewrite Hfresh in Hold.
  pose proof (armed_guard_is_stable this evs _ Hevs Hest) as Hstable.
  destruct (revoke_returns this _ Hrev) as (_ & Hback & Hoff & _).
  rewrite Hstable in Hback. rewrite Hsig, Hold in Hback.
  repeat split; auto.
  - now rewrite Hstable.
  - intros q Hq. now destruct (establish_returns this q Hq).
Qed.

Lemma establish_revoke_round_trip_witness :
  let A := 0%nat in
  let p := after (SignalHandler_ctor A SIGUSR1 4096 0 None fresh_process) in
  let evs := [Call Establish; Elsewhere SIGUSR1 (mk_sigaction 777 0%N 0 0);
              Call Ignore; Call Establish] in
  let p3 := after (revoke A (run A evs (after (establish A p)))) in
  (established (guard p A) = false
   /\ returns (establish A p) = true
   /\ forallb keeps_armed evs = true
   /\ returns (revoke A (run A evs (after (establish A p)))) = true)
  /\ active p3 (signal_number (guard p A)) = active p (signal_number (guard p A)).
Proof.
  cbv zeta.
  assert (H1 : established (guard (after (SignalHandler_ctor 0%nat SIGUSR1 4096 0 None
                fresh_process)) 0%nat) = false) by (vm_compute; reflexivity).
  assert (H2 : returns (establish 0%nat (after (SignalHandler_ctor 0%nat SIGUSR1 4096 0
                None fresh_process))) = true) by (vm_compute; reflexivity).
  assert (H3 : forallb keeps_armed
                 [Call Establish; Elsewhere SIGUSR1 (mk_sigaction 777 0%N 0 0);
                  Call Ignore; Call Establish] = true) by (vm_compute; reflexivity).
  assert (H4 : returns (revoke 0%nat (run 0%nat
                 [Call Establish; Elsewhere SIGUSR1 (mk_sigaction 777 0%N 0 0);
                  Call Ignore; Call Establish]
                 (after (establish 0%nat (after (SignalHandler_ctor 0%nat SIGUSR1 4096 0
                    None fresh_process)))))) = true) by (vm_compute; reflexivity).
  split; [repeat split; assumption |].
  exact (proj1 (proj2 (proj2 (proj2
           (establish_revoke_round_trip _ _ _ H1 H2 H3 H4))))).
Defined.

(** ** Destruction *)

Lemma dtor_of_disarmed_guard (this : addr) (p : process) :
  established (guard p this) = false ->
  SignalHandler_dtor this p = (Normal tt, p).
Proof.
  unfold guard, SignalHandler_dtor. intros Hest. cbn. now rewrite Hest.
Qed.

(** C5. Destroying an established guard issues the restoring [sigaction]
    call of [revoke].  If [revoke] returns, so does the destructor, in the
    state [revoke] left and with nothing written.  If [revoke] throws - it
    can only be the system error - the description of that error is
    written to the stream [error_stream] points to and the process ends
    with status [EX_OSERR].  Nothing is ever thrown out of the destructor,
    and [error_stream] is [cerr] when the program starts. *)
Theorem destructor_reports_and_terminates (this : addr) (p : process) :
  established (guard p this) = true ->
  let d := SignalHandler_dtor this p in
  let r := revoke this p in
  calls_since p (after d)
  = [Sigaction (signal_number (guard p this))
       (Some (old_signal_action (guard p this))) None]
  /\ (returns r = true ->
      result d = Normal tt
      /\ after d = after r
      /\ written (after d) = written p
      /\ established (guard (after d) this) = false
      /\ active (after d) (signal_number (guard p this))
         = old_signal_action (guard p this))
  /\ (forall e, result r = Thrown e ->
      is_system_error e = true
      /\ result d = Exited EX_OSERR
      /\ written (after d) = (written p ++ [(error_stream p, e)])%list
      /\ dispositions (after d) = dispositions p)
  /\ (forall status, result r <> Exited status)
  /\ (forall e, result d <> Thrown e)
  /\ (forall raw, error_stream (startup raw) = cerr).
Proof.
  unfold guard. intros Hest. cbv zeta. members. cbn.
  repeat (rewrite Hest; cbn).
  on_fault p; repeat split; auto; try (intros; discriminate).
  all: match goal with
       | H : Thrown _ = Thrown _ |- _ => injection H as <-; reflexivity
       end.
Qed.

Lemma destructor_reports_and_terminates_witness :
  let A := 0%nat in
  let armed := after ((SignalHandler_ctor A SIGUSR1 4096 0 None ;; establish A)
                        fresh_process) in
  let p := with_faults [Some EINVAL] armed in
  (established (guard p A) = true
   /\ result (revoke A p) = Thrown (system_error "sigaction" EINVAL))
  /\ result (SignalHandler_dtor A p) = Exited EX_OSERR.
Proof.
  cbv zeta.
  assert (Hest : established (guard (with_faults [Some EINVAL]
            (after ((SignalHandler_ctor 0%nat SIGUSR1 4096 0 None ;; establish 0%nat)
                      fresh_process))) 0%nat) = true) by (vm_compute; reflexivity).
  assert (Hfail : result (revoke 0%nat (with_faults [Some EINVAL]
            (after ((SignalHandler_ctor 0%nat SIGUSR1 4096 0 None ;; establish 0%nat)
                      fresh_process))))
          = Thrown (system_error "sigaction" EINVAL)) by (vm_compute; reflexivity).
  split; [split; assumption |].
  exact (proj1 (proj2 (proj1 (proj2 (proj2
           (destructor_reports_and_terminates _ _ Hest))) _ Hfail))).
Defined.

Example destructor_terminates_on_failure :
  let A := 0%nat in
  let armed := after ((SignalHandler_ctor A SIGUSR1 4096 0 None ;; establish A)
                        fresh_process) in
  let d := SignalHandler_dtor A (with_faults [Some EINVAL] armed) in
  result d = Exited 71
  /\ written (after d) = [(cerr, system_error "sigaction" 22)]
  /\ active (after d) SIGUSR1 = populated 4096 0 None.
Proof. vm_compute. repeat split; reflexivity. Qed.

Example destructor_writes_to_the_chosen_stream :
  let A := 0%nat in
  let d := (SignalHandler_ctor A SIGUSR1 4096 0 None ;; establish A ;;
            set_error_stream (other_stream 3) ;;
            modify (with_faults [Some EINVAL]) ;;
            SignalHandler_dtor A) fresh_process in
  result d = Exited EX_OSERR
  /\ written (after d) = [(other_stream 3, system_error "sigaction" EINVAL)].
Proof. vm_compute. split; reflexivity. Qed.

Example destructor_restores_quietly :
  let A := 0%nat in
  let p := after ((SignalHandler_ctor A SIGUSR1 4096 0 None ;; establish A)
                    fresh_process) in
  let d := SignalHandler_dtor A p in
  result d = Normal tt
  /\ active p SIGUSR1 = populated 4096 0 None
  /\ active (after d) SIGUSR1 = zeroed
  /\ written (after d) = [].
Proof. vm_compute. repeat split; reflexivity. Qed.

(** ** Moving *)

(** Both moves leave the source object as it was, [established] included. *)
Lemma move_copies (this other : addr) (p : process) :
  this <> other ->
  let p' := after (SignalHandler_move this other p) in
  guard p' this = guard p other
  /\ guard p' other = guard p other
  /\ syscalls p' = syscalls p.
Proof.
  intros Hne. unfold SignalHandler_move, after, guard. cbn.
  rewrite poke_same, poke_other by congruence.
  repeat split. apply guard_eta.
Qed.

Lemma move_assignment_copies (this other : addr) (p : process) :
  this <> other ->
  let p' := after (operator_assign this other p) in
  guard p' this = guard p other
  /\ guard p' other = guard p other
  /\ syscalls p' = syscalls p.
Proof.
  intros Hne. unfold operator_assign, after, guard.
  destruct (Nat.eqb_spec this other) as [Heq | _]; [contradiction |].
  cbn. rewrite ?poke_same. cbn.
  rewrite ?poke_other by congruence. rewrite ?poke_same. cbn.
  repeat split. apply guard_eta.
Qed.

Lemma self_move_assignment (this : addr) (p : process) :
  operator_assign this this p = (Normal tt, p).
Proof. unfold operator_assign. now rewrite Nat.eqb_refl. Qed.

(** C2. The moved-from guard stays established.  With guard A
    established for [SIGUSR1], move-constructing B from A (or
    move-assigning A to an existing B) leaves [established] true in A;
    destroying A then issues a restoring [sigaction] call that takes B's
    handler out of the kernel, and destroying B issues the same call a
    second time. *)
Theorem moved_from_guard_still_restores :
  let A := 0%nat in
  let B := 1%nat in
  let restore := Sigaction SIGUSR1 (Some zeroed) None in
  let p0 := after ((SignalHandler_ctor A SIGUSR1 4096 0 None ;; establish A)
                     fresh_process) in
  let constructed := after (SignalHandler_move B A p0) in
  let assigned :=
    after ((SignalHandler_ctor B SIGUSR1 8192 0 None ;; operator_assign B A) p0) in
  (established (guard constructed A) = true
   /\ established (guard constructed B) = true
   /\ active constructed SIGUSR1 = populated 4096 0 None
   /\ calls_since constructed (after (SignalHandler_dtor A constructed)) = [restore]
   /\ active (after (SignalHandler_dtor A constructed)) SIGUSR1 = zeroed
   /\ calls_since constructed
        (after ((SignalHandler_dtor A ;; SignalHandler_dtor B) constructed))
      = [restore; restore])
  /\ (established (guard assigned A) = true
      /\ established (guard assigned B) = true
      /\ active assigned SIGUSR1 = populated 4096 0 None
      /\ calls_since assigned (after (SignalHandler_dtor A assigned)) = [restore]
      /\ active (after (SignalHandler_dtor A assigned)) SIGUSR1 = zeroed
      /\ calls_since assigned
           (after ((SignalHandler_dtor A ;; SignalHandler_dtor B) assigned))
         = [restore; restore]).
Proof.
  vm_compute. repeat split; reflexivity.
Qed.

(** * Further properties of the member functions *)

(** ** What one call does to the guard and to the kernel *)

(** X1. A call that throws has changed no guard object and no
    disposition.  What it throws is the system error naming [sigaction]
    with the [errno] the kernel left, except for [revoke] on a guard that
    is not established, which throws a logic error. *)
Theorem failed_call_changes_nothing
    (c : call) (this : addr) (p : process) (x : exception) :
  result (invoke c this p) = Thrown x ->
  let p' := after (invoke c this p) in
  heap p' = heap p
  /\ dispositions p' = dispositions p
  /\ (x = system_error "sigaction" (errno p')
      \/ (c = Revoke /\ established (guard p this) = false
          /\ is_logic_error x = true)).
Proof.
  cbv zeta. destruct c; members; cbn;
    destruct (established (heap p this)) eqn:Hest; cbn;
    on_fault p; intros Hx; try discriminate;
    injection Hx as <-; auto 6.
Qed.

Lemma failed_call_changes_nothing_witness :
  let A := 0%nat in
  let p := with_faults [Some EINVAL]
             (after (SignalHandler_ctor A SIGUSR1 4096 0 None fresh_process)) in
  result (invoke Establish A p) = Thrown (system_error "sigaction" EINVAL)
  /\ heap (after (invoke Establish A p)) = heap p.
Proof.
  cbv zeta.
  assert (Hx : result (invoke Establish 0%nat (with_faults [Some EINVAL]
                 (after (SignalHandler_ctor 0%nat SIGUSR1 4096 0 None fresh_process))))
               = Thrown (system_error "sigaction" EINVAL))
    by (vm_compute; reflexivity).
  split; [exact Hx |].
  exact (proj1 (failed_call_changes_nothing _ _ _ _ Hx)).
Defined.

(** X2. [established] follows success: [establish] sets it exactly when it
    returns, [revoke] clears it exactly when it returns, a call that
    throws leaves it, and [ignore] never changes it. *)
Theorem established_tracks_success (c : call) (this : addr) (p : process) :
  let r := invoke c this p in
  established (guard (after r) this) =
    match c with
    | Establish => established (guard p this) || returns r
    | Revoke => established (guard p this) && negb (returns r)
    | Ignore => established (guard p this)
    end.
Proof.
  cbv zeta. destruct c; members; cbn;
    destruct (established (heap p this)) eqn:Hest; cbn;
    on_fault p; rewrite ?Hest; auto.
Qed.

(** X3. The signal number and the pending disposition of a guard are
    never changed by [establish], [revoke], [ignore] or the destructor,
    whether they return, throw or end the process. *)
Theorem pending_disposition_is_immutable
    (c : call) (this : addr) (p : process) :
  let p' := after (invoke c this p) in
  let d := after (SignalHandler_dtor this p) in
  signal_number (guard p' this) = signal_number (guard p this)
  /\ curent_signal_action (guard p' this) = curent_signal_action (guard p this)
  /\ signal_number (guard d this) = signal_number (guard p this)
  /\ curent_signal_action (guard d this) = curent_signal_action (guard p this).
Proof.
  cbv zeta. repeat split; try destruct c; members; cbn;
    destruct (established (heap p this)) eqn:Hest; cbn;
    rewrite ?Hest; cbn; on_fault p; auto.
Qed.

(** X4. Each of [establish], [revoke] and [ignore] issues exactly one
    [sigaction] call, for the guard's own signal - [establish] with the
    output slot only when the guard is not established - except [revoke]
    on a guard that is not established, which issues none.  None of them
    ends the process. *)
Theorem one_call_for_the_own_signal (c : call) (this : addr) (p : process) :
  let g := guard p this in
  calls_since p (after (invoke c this p)) =
    match c with
    | Establish =>
        [Sigaction (signal_number g) (Some (curent_signal_action g))
           (if established g then None else Some (old_signal_action_of this))]
    | Revoke =>
        if established g
        then [Sigaction (signal_number g) (Some (old_signal_action g)) None]
        else []
    | Ignore => [Sigaction (signal_number g) (Some ignore_action) None]
    end
  /\ forall status, result (invoke c this p) <> Exited status.
Proof.
  cbv zeta. destruct c; members; cbn;
    destruct (established (heap p this)) eqn:Hest; cbn;
    on_fault p; rewrite ?skipn_all; split; auto; intros; discriminate.
Qed.

(** X5. A member function writes to no guard but its own: every other
    object in memory is as before, after either constructor, after
    [establish], [revoke], [ignore], after the destructor and after both
    moves (whose source, too, keeps its members). *)
Theorem members_write_only_their_object (this other : addr) (p : process) :
  other <> this ->
  (forall c, guard (after (invoke c this p)) other = guard p other)
  /\ guard (after (SignalHandler_dtor this p)) other = guard p other
  /\ (forall signum h flags mask,
        guard (after (SignalHandler_ctor this signum h flags mask p)) other
        = guard p other
        /\ guard (after (SignalHandler_ctor_extended this signum h flags mask p)) other
           = guard p other)
  /\ (forall source,
        guard (after (SignalHandler_move this source p)) other = guard p other
        /\ guard (after (operator_assign this source p)) other = guard p other).
Proof.
  intros Hne.
  assert (Hpoke : forall h g, poke h this g other = h other)
    by (intros; now apply poke_other).
  split; [| split; [| split]].
  - intros c. destruct c; members; cbn;
      destruct (established (heap p this)); cbn; on_fault p;
      rewrite ?Hpoke; auto.
  - members. cbn. destruct (established (heap p this)) eqn:Hest; cbn; auto.
    rewrite Hest. cbn. on_fault p; rewrite ?Hpoke; auto.
  - intros signum h flags mask.
    split; unfold SignalHandler_ctor, SignalHandler_ctor_extended, throw_if,
      after, guard; cbn;
      repeat match goal with
        | |- context [if ?b then _ else _] => destruct b; cbn
        | |- context [match ?o with Some _ => _ | None => _ end] =>
            destruct o; cbn
        end; rewrite ?Hpoke; auto.
  - intros source.
    split; unfold SignalHandler_move, operator_assign, after, guard; cbn.
    + apply Hpoke.
    + destruct (negb (Nat.eqb this source)); cbn; rewrite ?Hpoke; auto.
Qed.

Lemma members_write_only_their_object_witness :
  let A := 0%nat in
  let B := 1%nat in
  let p := after ((SignalHandler_ctor A SIGUSR1 4096 0 None ;;
                   SignalHandler_ctor B SIGUSR1 8192 0 None) fresh_process) in
  B <> A
  /\ guard (after (invoke Establish A p)) B = guard p B.
Proof.
  cbv zeta.
  assert (Hne : 1%nat <> 0%nat) by lia.
  split; [exact Hne |].
  exact (proj1 (members_write_only_their_object 0%nat 1%nat _ Hne) Establish).
Defined.

(** ** A guard that has its signal to itself *)

(** One step of the invariant of [lone_guard_restores_original]. *)
Lemma own_cycle_step (this : addr) (ev : event) (p : process)
    (signum : Z) (pending original : sigaction_t) :
  own_cycle ev = true ->
  signal_number (guard p this) = signum ->
  curent_signal_action (guard p this) = pending ->
  active p signum
  = (if established (guard p this) then pending else original) ->
  (established (guard p this) = true ->
   old_signal_action (guard p this) = original) ->
  let q := occur this ev p in
  signal_number (guard q this) = signum
  /\ curent_signal_action (guard q this) = pending
  /\ active q signum
     = (if established (guard q this) then pending else original)
  /\ (established (guard q this) = true ->
      old_signal_action (guard q this) = original).
Proof.
  intros Hev Hsig Hcur Hact Hold. cbv zeta.
  destruct ev as [[| |] | s a]; try discriminate; cbn;
    unfold guard, active in *; members; cbn;
    destruct (established (heap p this)) eqn:Hest; cbn;
    on_fault p; rewrite ?Hest, ?Hsig, ?update_same; cbn; auto.
Qed.

(** X6. As long as nothing but the guard's own [establish] and [revoke]
    calls touches its signal, the guard behaves as if the prior
    disposition were captured once: after any sequence of such calls,
    failed ones included, the active disposition is the pending one while
    the guard is established and the original one while it is not, and
    an established guard holds the original one as its restore target. *)
Theorem lone_guard_restores_original
    (this : addr) (evs : list event) (p : process) :
  forallb own_cycle evs = true ->
  established (guard p this) = false ->
  let signum := signal_number (guard p this) in
  let q := run this evs p in
  active q signum
  = (if established (guard q this)
     then curent_signal_action (guard p this)
     else active p signum)
  /\ (established (guard q this) = true ->
      old_signal_action (guard q this) = active p signum)
  /\ signal_number (guard q this) = signum.
Proof.
  intros Hevs Hoff. cbv zeta.
  set (signum := signal_number (guard p this)).
  set (pending := curent_signal_action (guard p this)).
  set (original := active p signum).
  assert (Hinv :
    signal_number (guard p this) = signum
    /\ curent_signal_action (guard p this) = pending
    /\ active p signum
       = (if established (guard p this) then pending else original)
    /\ (established (guard p this) = true ->
        old_signal_action (guard p this) = original)).
  { rewrite Hoff. repeat split; auto. discriminate. }
  clearbody signum pending original. clear Hoff.
  revert p Hinv.
  induction evs as [| ev evs IH]; intros p (Hsig & Hcur & Hact & Hold).
  - cbn. auto.
  - cbn in Hevs. apply andb_prop in Hevs. destruct Hevs as [Hev Hevs].
    unfold run. cbn. apply (IH Hevs).
    exact (own_cycle_step this ev p signum pending original
             Hev Hsig Hcur Hact Hold).
Qed.

Lemma lone_guard_restores_original_witness :
  let A := 0%nat in
  let p := with_faults [None; Some EINVAL; None]
             (after (SignalHandler_ctor A SIGUSR1 4096 0 None fresh_process)) in
  let evs := [Call Establish; Call Revoke; Call Revoke; Call Establish;
              Call Establish; Call Revoke] in
  (forallb own_cycle evs = true /\ established (guard p A) = false)
  /\ signal_number (guard (run A evs p) A) = signal_number (guard p A).
Proof.
  cbv zeta.
  assert (Hevs : forallb own_cycle
                   [Call Establish; Call Revoke; Call Revoke; Call Establish;
                    Call Establish; Call Revoke] = true)
    by (vm_compute; reflexivity).
  assert (Hoff : established (guard (with_faults [None; Some EINVAL; None]
             (after (SignalHandler_ctor 0%nat SIGUSR1 4096 0 None fresh_process)))
             0%nat) = false) by (vm_compute; reflexivity).
  split; [split; assumption |].
  exact (proj2 (proj2 (lone_guard_restores_original _ _ _ Hevs Hoff))).
Defined.

Example lone_guard_cycles :
  let A := 0%nat in
  let p := with_faults [None; Some EINVAL; None]
             (after (SignalHandler_ctor A SIGUSR1 4096 0 None fresh_process)) in
  let q := run A [Call Establish; Call Revoke; Call Revoke; Call Establish;
                  Call Establish] p in
  established (guard q A) = true
  /\ active q SIGUSR1 = populated 4096 0 None
  /\ old_signal_action (guard q A) = zeroed
  /\ List.length (syscalls q) = 5%nat.
Proof. vm_compute. repeat split; reflexivity. Qed.

(** ** Which arguments the constructors take *)

(** X7. The simple form constructs a guard exactly for a non-null
    handler, flags without [SA_SIGINFO], and a signal number from
    [SIGHUP] to [SIGRTMAX] other than [SIGKILL] and [SIGSTOP]; the mask
    plays no part. *)
Theorem ctor_accepts_exactly
    (this : addr) (signum : Z) (h : funptr) (flags : Z)
    (mask : option sigset_t) (p : process) :
  returns (SignalHandler_ctor this signum h flags mask p) = true
  <-> (h <> nullptr
       /\ Z.land flags SA_SIGINFO = 0
       /\ SIGHUP <= signum <= SIGRTMAX
       /\ signum <> SIGKILL
       /\ signum <> SIGSTOP).
Proof.
  ctor_cases; test_facts;
    (split; [intros Hret; try discriminate; repeat split; auto; lia
            | intros (Hh & Hflags & Hrange & Hkill & Hstop);
              try reflexivity; try contradiction; try lia]).
Qed.

(** X8. The extended form constructs a guard exactly for a non-null
    handler and a signal number from [SIGHUP] to [SIGRTMAX] other than
    [SIGKILL]: neither the flags nor the mask can make it fail, and
    [SIGSTOP] is among the numbers it takes. *)
Theorem ctor_extended_accepts_exactly
    (this : addr) (signum : Z) (h : funptr) (flags : Z)
    (mask : option sigset_t) (p : process) :
  returns (SignalHandler_ctor_extended this signum h flags mask p) = true
  <-> (h <> nullptr
       /\ SIGHUP <= signum <= SIGRTMAX
       /\ signum <> SIGKILL).
Proof.
  ctor_cases; test_facts;
    (split; [intros Hret; try discriminate; repeat split; auto; lia
            | intros (Hh & Hrange & Hkill);
              try reflexivity; try contradiction; try lia]).
Qed.

(** X9. For a signal number the constructors refuse - out of range, or
    [SIGKILL] - the two forms throw different classes when the handler is
    not null: the simple form [std::invalid_argument], the extended form
    plain [std::logic_error], which a handler for
    [std::invalid_argument] does not catch. *)
Theorem refusal_class_depends_on_form
    (this : addr) (signum : Z) (h : funptr) (flags : Z)
    (mask : option sigset_t) (p : process) :
  h <> nullptr ->
  signum < SIGHUP \/ SIGRTMAX < signum \/ signum = SIGKILL ->
  exists e_simple e_extended,
    result (SignalHandler_ctor this signum h flags mask p) = Thrown e_simple
    /\ is_invalid_argument e_simple = true
    /\ result (SignalHandler_ctor_extended this signum h flags mask p)
       = Thrown e_extended
    /\ is_logic_error e_extended = true
    /\ is_invalid_argument e_extended = false.
Proof.
  intros Hh Hbad.
  assert (Hnull : (h =? nullptr) = false) by now apply Z.eqb_neq.
  unfold SignalHandler_ctor, SignalHandler_ctor_extended, throw_if, result.
  cbn. rewrite Hnull. cbn.
  destruct (negb (Z.land flags SA_SIGINFO =? 0)); cbn;
    destruct ((signum <? SIGHUP) || (signum >? SIGRTMAX)) eqn:Hrange; cbn;
    try (do 2 eexists; repeat split; reflexivity).
  all: destruct (signum =? SIGKILL) eqn:Hkill; cbn;
    try (do 2 eexists; repeat split; reflexivity).
  all: test_facts; lia.
Qed.

Lemma refusal_class_depends_on_form_witness :
  (4096 <> nullptr /\ (65 < SIGHUP \/ SIGRTMAX < 65 \/ 65 = SIGKILL))
  /\ exists e_simple e_extended,
       result (SignalHandler_ctor 0%nat 65 4096 0 None fresh_process)
       = Thrown e_simple
       /\ is_invalid_argument e_simple = true
       /\ result (SignalHandler_ctor_extended 0%nat 65 4096 0 None fresh_process)
          = Thrown e_extended
       /\ is_logic_error e_extended = true
       /\ is_invalid_argument e_extended = false.
Proof.
  assert (Hh : 4096 <> nullptr) by (unfold nullptr; lia).
  assert (Hbad : 65 < SIGHUP \/ SIGRTMAX < 65 \/ 65 = SIGKILL)
    by (unfold SIGHUP, SIGRTMAX, SIGKILL; lia).
  split; [split; assumption |].
  exact (refusal_class_depends_on_form 0%nat 65 4096 0 None fresh_process Hh Hbad).
Defined.

(** ** Sequences of calls *)

Lemma revoke_of_disarmed_guard (this : addr) (p : process) :
  established (guard p this) = false ->
  revoke this p
  = (Thrown (logic_error
       "revoking a signal handler that has not been established will result in undefined behavior."),
     p).
Proof.
  unfold guard, revoke, throw_if. intros Hoff. cbn. now rewrite Hoff.
Qed.

(** X10. A successful [revoke] disarms the guard for good: a second
    [revoke] is refused with [std::logic_error] and destroying the guard
    does nothing, both without a system call and leaving the restored
    disposition in place. *)
Theorem revoked_guard_is_inert (this : addr) (p : process) :
  returns (revoke this p) = true ->
  let p' := after (revoke this p) in
  revoke this p'
  = (Thrown (logic_error
       "revoking a signal handler that has not been established will result in undefined behavior."),
     p')
  /\ SignalHandler_dtor this p' = (Normal tt, p')
  /\ active p' (signal_number (guard p this)) = old_signal_action (guard p this).
Proof.
  intros Hret. cbv zeta.
  destruct (revoke_returns this p Hret) as (_ & Hact & Hoff & _).
  split; [| split; [| exact Hact]].
  - now apply revoke_of_disarmed_guard.
  - now apply dtor_of_disarmed_guard.
Qed.

Lemma revoked_guard_is_inert_witness :
  let A := 0%nat in
  let p := after ((SignalHandler_ctor A SIGUSR1 4096 0 None ;; establish A)
                    fresh_process) in
  returns (revoke A p) = true
  /\ SignalHandler_dtor A (after (revoke A p)) = (Normal tt, after (revoke A p)).
Proof.
  cbv zeta.
  assert (Hret : returns (revoke 0%nat
            (after ((SignalHandler_ctor 0%nat SIGUSR1 4096 0 None ;; establish 0%nat)
                      fresh_process))) = true) by (vm_compute; reflexivity).
  split; [exact Hret |].
  exact (proj1 (proj2 (revoked_guard_is_inert _ _ Hret))).
Defined.

(** X11. A guard that is constructed and destroyed without [establish]
    never reaches the kernel: after either constructor has returned, the
    destructor returns at once, with no system call and every
    disposition as it was before the construction. *)
Theorem unused_guard_is_destroyed_silently
    (this : addr) (signum : Z) (h : funptr) (flags : Z)
    (mask : option sigset_t) (p : process) :
  let simple := SignalHandler_ctor this signum h flags mask p in
  let extended := SignalHandler_ctor_extended this signum h flags mask p in
  (returns simple = true ->
   SignalHandler_dtor this (after simple) = (Normal tt, after simple)
   /\ syscalls (after simple) = syscalls p
   /\ dispositions (after simple) = dispositions p)
  /\ (returns extended = true ->
      SignalHandler_dtor this (after extended) = (Normal tt, after extended)
      /\ syscalls (after extended) = syscalls p
      /\ dispositions (after extended) = dispositions p).
Proof.
  cbv zeta. split; intros Hret.
  - assert (Hoff : established
                     (guard (after (SignalHandler_ctor this signum h flags mask p))
                        this) = false).
    { revert Hret. ctor_cases; intros Hret; try discriminate; reflexivity. }
    split; [now apply dtor_of_disarmed_guard |].
    split; ctor_cases; reflexivity.
  - assert (Hoff : established
                     (guard (after (SignalHandler_ctor_extended this signum h flags
                                      mask p)) this) = false).
    { revert Hret. ctor_cases; intros Hret; try discriminate; reflexivity. }
    split; [now apply dtor_of_disarmed_guard |].
    split; ctor_cases; reflexivity.
Qed.

Lemma unused_guard_is_destroyed_silently_witness :
  let r := SignalHandler_ctor 0%nat SIGUSR1 4096 0 None fresh_process in
  returns r = true
  /\ SignalHandler_dtor 0%nat (after r) = (Normal tt, after r).
Proof.
  cbv zeta.
  assert (Hret : returns (SignalHandler_ctor 0%nat SIGUSR1 4096 0 None fresh_process)
                 = true) by (vm_compute; reflexivity).
  split; [exact Hret |].
  exact (proj1 (proj1 (unused_guard_is_destroyed_silently
                         0%nat SIGUSR1 4096 0 None fresh_process) Hret)).
Defined.

(** ** Moves and the error stream *)

(** X12. Move construction makes the new guard a member-for-member copy
    of the source and leaves the source as it was; it returns normally,
    issues no system call and changes no disposition. *)
Theorem move_construction_copies_silently (this other : addr) (p : process) :
  this <> other ->
  let r := SignalHandler_move this other p in
  result r = Normal tt
  /\ guard (after r) this = guard p other
  /\ guard (after r) other = guard p other
  /\ syscalls (after r) = syscalls p
  /\ dispositions (after r) = dispositions p.
Proof.
  intros Hne. cbv zeta.
  destruct (move_copies this other p Hne) as (Hthis & Hother & Hcalls).
  repeat split; assumption.
Qed.

Lemma move_construction_copies_silently_witness :
  let A := 0%nat in
  let B := 1%nat in
  let p := after ((SignalHandler_ctor A SIGUSR1 4096 0 None ;; establish A)
                    fresh_process) in
  B <> A
  /\ guard (after (SignalHandler_move B A p)) B = guard p A.
Proof.
  cbv zeta.
  assert (Hne : 1%nat <> 0%nat) by lia.
  split; [exact Hne |].
  exact (proj1 (proj2 (move_construction_copies_silently 1%nat 0%nat _ Hne))).
Defined.

(** X13. Move assignment to itself does nothing.  Move assignment from
    another guard overwrites all four members of the target with the
    source's and leaves the source as it was, without any system call:
    a target that was established is not revoked first, its handler stays
    with the kernel and the disposition it had captured is forgotten. *)
Theorem move_assignment_overwrites_silently (this other : addr) (p : process) :
  (this = other -> operator_assign this other p = (Normal tt, p))
  /\ (this <> other ->
      let r := operator_assign this other p in
      result r = Normal tt
      /\ guard (after r) this = guard p other
      /\ guard (after r) other = guard p other
      /\ syscalls (after r) = syscalls p
      /\ dispositions (after r) = dispositions p).
Proof.
  split.
  - intros ->. apply self_move_assignment.
  - intros Hne. cbv zeta.
    destruct (move_assignment_copies this other p Hne) as (Hthis & Hother & Hcalls).
    repeat split; try assumption;
      unfold operator_assign, result, after;
      destruct (Nat.eqb_spec this other) as [Heq | _];
      try contradiction; reflexivity.
Qed.

Lemma move_assignment_overwrites_silently_witness :
  let A := 0%nat in
  let B := 1%nat in
  let p := after ((SignalHandler_ctor A SIGUSR1 4096 0 None ;; establish A ;;
                   SignalHandler_ctor B SIGUSR1 8192 0 None ;; establish B)
                    fresh_process) in
  B <> A
  /\ guard (after (operator_assign B A p)) B = guard p A
  /\ syscalls (after (operator_assign B A p)) = syscalls p.
Proof.
  cbv zeta.
  assert (Hne : 1%nat <> 0%nat) by lia.
  split; [exact Hne |].
  pose proof (proj2 (move_assignment_overwrites_silently 1%nat 0%nat
    (after ((SignalHandler_ctor 0%nat SIGUSR1 4096 0 None ;; establish 0%nat ;;
             SignalHandler_ctor 1%nat SIGUSR1 8192 0 None ;; establish 1%nat)
              fresh_process))) Hne) as Hmove.
  cbv zeta in Hmove.
  split; [exact (proj1 (proj2 Hmove)) | exact (proj1 (proj2 (proj2 (proj2 Hmove))))].
Defined.

Example move_assignment_forgets_the_target :
  let A := 0%nat in
  let B := 1%nat in
  let p := after ((SignalHandler_ctor A SIGUSR1 4096 0 None ;; establish A ;;
                   SignalHandler_ctor B SIGUSR1 8192 0 None ;; establish B)
                    fresh_process) in
  let q := after (operator_assign B A p) in
  old_signal_action (guard p B) = populated 4096 0 None
  /\ old_signal_action (guard q B) = zeroed
  /\ active q SIGUSR1 = populated 8192 0 None.
Proof. vm_compute. repeat split; reflexivity. Qed.


